(** * repository_prisma: ambient transactions for Prisma repositories

  A shallow embedding of the library core
  ([src/lib/context.ts], [src/lib/prisma-manager.ts],
  [src/lib/base-repository.ts], [src/lib/decorators.ts],
  [src/lib/repository-factory.ts], [src/index.ts]) and the properties
  its specification states about it.

  Conventions of the embedding.
  - A JavaScript function is a computation [Comp A]: it reads the
    store of the [AsyncLocalStorage] instance [prismaContext] (the
    ambient transaction client of the running call-tree), threads the
    state of the database engine, and either returns or throws.
  - A promise is represented by its settlement; a call-tree awaits a
    promise where it obtains it, so one call-tree is a sequential
    computation.
  - Strings are sequences of code units below 256. *)

From Stdlib Require Import String Ascii List ZArith Bool Lia.
From stdpp Require Import gmap.
Import ListNotations.
Local Open Scope string_scope.

(** ** JavaScript string primitives used by [resolveModelName] *)

Module JsString.

(** Relative index resolution of [String.prototype.slice]. *)
Definition clampIndex (len i : Z) : Z :=
  if (i <? 0)%Z then Z.max (len + i) 0 else Z.min i len.

(** [s.slice(start, fin)]. *)
Definition slice (s : string) (start fin : Z) : string :=
  let len := Z.of_nat (String.length s) in
  let from := clampIndex len start in
  let to := clampIndex len fin in
  substring (Z.to_nat from) (Z.to_nat (Z.max (to - from) 0)) s.

(** [s.slice(start)]: the end defaults to the length. *)
Definition sliceFrom (s : string) (start : Z) : string :=
  slice s start (Z.of_nat (String.length s)).

(** [s.charAt(i)]: the empty string out of range. *)
Definition charAt (s : string) (i : nat) : string :=
  match String.get i s with
  | Some c => String c EmptyString
  | None => EmptyString
  end.

(** [s.endsWith(search)]. *)
Definition endsWith (s search : string) : bool :=
  let n := String.length s in
  let m := String.length search in
  (m <=? n)%nat && String.eqb (substring (n - m) m s) search.

(** Lower-casing of one code unit below 256: the ASCII capitals and the
    Latin-1 capitals (U+00C0..U+00DE without the multiplication sign). *)
Definition lowerUnit (c : ascii) : ascii :=
  let n := nat_of_ascii c in
  if ((65 <=? n) && (n <=? 90))%nat then ascii_of_nat (n + 32)
  else if ((192 <=? n) && (n <=? 222) && negb (n =? 215))%nat
       then ascii_of_nat (n + 32)
  else c.

(** [s.toLowerCase()]. *)
Fixpoint toLowerCase (s : string) : string :=
  match s with
  | EmptyString => EmptyString
  | String c rest => String (lowerUnit c) (toLowerCase rest)
  end.

(** Truthiness of a string value: only the empty string is falsy. *)
Definition truthy (s : string) : bool :=
  match s with
  | EmptyString => false
  | String _ _ => true
  end.

End JsString.

(** ** Values shared by the whole library *)

(** An [Error] object: its [name] and its [message]. *)
Record JsError : Type := mkError { errName : string; errMessage : string }.

Definition Error (message : string) : JsError := mkError "Error" message.
Definition TypeError (message : string) : JsError := mkError "TypeError" message.

(** Outcome of evaluating a call: a value, or a synchronous throw. *)
Inductive Result (A : Type) : Type :=
| Ok (a : A)
| Thrown (e : JsError).
Arguments Ok {A} a.
Arguments Thrown {A} e.

(** A promise, by its settlement. *)
Inductive Promise (V : Type) : Type :=
| Fulfilled (v : V)
| Rejected (e : JsError).
Arguments Fulfilled {V} v.
Arguments Rejected {V} e.

(** What a call hands back at run time: a plain value or a promise. *)
Inductive JsValue (V : Type) : Type :=
| Plain (v : V)
| Prom (p : Promise V).
Arguments Plain {V} v.
Arguments Prom {V} p.

(** The interactive transaction client handed out by [$transaction]. *)
Inductive TransactionClient : Type :=
| Itx (id : nat).

(** [PrismaClientLike = PrismaClient | Prisma.TransactionClient]. *)
Inductive PrismaClientLike : Type :=
| RootClient
| TxClient (tx : TransactionClient).

(** The five delegate operations [BaseRepository] forwards. *)
Inductive Method : Type := Create | FindUnique | FindMany | Update | Delete.

Definition methodName (m : Method) : string :=
match m with
| Create => "create"
| FindUnique => "findUnique"
| FindMany => "findMany"
| Update => "update"
| Delete => "delete"
end.

(** What a property of a client object can hold: the delegate of a model,
  or a member that is no delegate (such as [$transaction], which
  [context.ts] calls on the root client). *)
Inductive Member : Type :=
| ModelDelegate
| UtilityMethod.

(** ** [BaseRepository]: the model name *)

(** An instance of a concrete subclass: the optional [modelName] field
  and [this.constructor.name]. *)
Record Repository : Type := mkRepository {
modelName : option string;
className : string
}.

(** [constructor(modelName?)] of a subclass called [cls]. *)
Definition newRepository (cls : string) (name : option string) : Repository :=
{| modelName := name; className := cls |}.

Definition inferModelName (cls : string) : string :=
let inferred :=
  if JsString.endsWith cls "Repository"
  then JsString.slice cls 0 (- Z.of_nat (String.length "Repository"))
  else cls in
JsString.toLowerCase (JsString.charAt inferred 0)
  ++ JsString.sliceFrom inferred 1.

Definition resolveModelName (r : Repository) : string :=
match modelName r with
| Some name =>
    if JsString.truthy name then name else inferModelName (className r)
| None => inferModelName (className r)
end.

(** The wording of the specification: lower-case the first letter. *)
Definition lowerFirst (s : string) : string :=
match s with
| EmptyString => EmptyString
| String c rest => String (JsString.lowerUnit c) rest
end.

(** The message of the configuration error raised by the [delegate] getter. *)
Definition unknownModel (r : Repository) : JsError :=
Error ("Unknown Prisma model '" ++ resolveModelName r ++ "' for "
       ++ className r ++ ". " ++ "Set modelName explicitly on the repository.").

(** ** The engine interface

    What the library consumes from [@prisma/client]: [Val] is the type of
    query arguments and results, [Store] the persistent state of the
    engine, [exec] what one query of a delegate does to a store, and
    [members] the property table of a generated client (which names hold
    a delegate depends on the Prisma schema). *)

Class Engine : Type := mkEngine {
  Val : Type;
  Store : Type;
  exec : string -> Method -> Val -> Store -> Result Val * Store;
  members : PrismaClientLike -> string -> option Member
}.

(** ** The library over an arbitrary engine *)

Section Library.

Context {E : Engine}.

(** *** The engine

    The engine client of [@prisma/client] is not part of the repository;
    the definitions of this part follow the external interface the
    specification gives for it. *)

(** Modelled from the spec: the state of the engine. A root client runs
    its queries on the [committed] store, a transaction client on its
    [working] copy; [opens] counts the [$transaction] calls that reached
    the engine (and names the next transaction). *)
Record World : Type := mkWorld {
  committed : Store;
  working : gmap nat Store;
  opens : nat
}.

(** A call: reads the store of [prismaContext], threads the engine. *)
Definition Comp (A : Type) : Type :=
  option TransactionClient -> World -> Result A * World.

Definition ret {A : Type} (a : A) : Comp A :=
  fun _ w => (Ok a, w).

Definition throw {A : Type} (e : JsError) : Comp A :=
  fun _ w => (Thrown e, w).

Definition bind {A B : Type} (m : Comp A) (k : A -> Comp B) : Comp B :=
  fun store w =>
    match m store w with
    | (Ok a, w') => k a store w'
    | (Thrown e, w') => (Thrown e, w')
    end.

Notation "'do' x <- m ; k" := (bind m (fun x => k))
  (at level 10, x name, m at level 100, k at level 200).

(** [await x]. *)
Definition await (x : JsValue Val) : Comp Val :=
  match x with
  | Plain v => ret v
  | Prom (Fulfilled v) => ret v
  | Prom (Rejected e) => throw e
  end.

(** An [async] function whose body is [body]: always a promise. *)
Definition asyncBody (body : Comp Val) : Comp (JsValue Val) :=
  fun store w =>
    match body store w with
    | (Ok v, w') => (Ok (Prom (Fulfilled v)), w')
    | (Thrown e, w') => (Ok (Prom (Rejected e)), w')
    end.

(** [async (...) => { return call }]. *)
Definition async (call : Comp (JsValue Val)) : Comp (JsValue Val) :=
  asyncBody (do x <- call ; await x).

Definition settle (r : Result Val) : Promise Val :=
  match r with
  | Ok v => Fulfilled v
  | Thrown e => Rejected e
  end.

(** Modelled from the spec: the engine error of a finished transaction. *)
Definition closedTransaction : JsError :=
  mkError "PrismaClientKnownRequestError" "Transaction already closed".

(** Modelled from the spec: the working copy of transaction [id]
    replaced by [s]. *)
Definition setWorking (id : nat) (s : Store) (w : World) : World :=
  mkWorld (committed w) (<[id := s]> (working w)) (opens w).

(** Modelled from the spec: [client[model].method(args)] for a delegate,
    a promise of what [exec] yields on the store the client works on; a
    transaction client whose transaction is over rejects. *)
Definition query (client : PrismaClientLike) (model : string) (m : Method)
    (args : Val) : Comp (JsValue Val) :=
  fun _ w =>
    match client with
    | RootClient =>
        let '(r, s) := exec model m args (committed w) in
        (Ok (Prom (settle r)), mkWorld s (working w) (opens w))
    | TxClient (Itx id) =>
        match working w !! id with
        | Some s0 =>
            let '(r, s) := exec model m args s0 in
            (Ok (Prom (settle r)), setWorking id s w)
        | None => (Ok (Prom (Rejected closedTransaction)), w)
        end
    end.

(** Modelled from the spec: a transaction starts on a copy of the
    committed store. *)
Definition begin (w : World) : World :=
  mkWorld (committed w) (<[opens w := committed w]> (working w)) (S (opens w)).

(** Modelled from the spec: commit publishes the working copy. *)
Definition commit (id : nat) (w : World) : World :=
  match working w !! id with
  | Some s => mkWorld s (delete id (working w)) (opens w)
  | None => w
  end.

(** Modelled from the spec: rollback drops the working copy. *)
Definition rollback (id : nat) (w : World) : World :=
  mkWorld (committed w) (delete id (working w)) (opens w).

(** Modelled from the spec: [rootPrismaClient.$transaction(callback)],
    the awaited callback result, committed on normal return and rolled
    back on a thrown error. *)
Definition transaction (callback : TransactionClient -> Comp (JsValue Val))
    : Comp (JsValue Val) :=
  fun store w =>
    let id := opens w in
    match (do x <- callback (Itx id) ; await x) store (begin w) with
    | (Ok v, w') => (Ok (Prom (Fulfilled v)), commit id w')
    | (Thrown e, w') => (Ok (Prom (Rejected e)), rollback id w')
    end.

(** *** [AsyncLocalStorage] and [src/lib/context.ts] *)

(** [prismaContext.getStore()]. *)
Definition getStore : Comp (option TransactionClient) :=
  fun store w => (Ok store, w).

(** [prismaContext.run(tx, callback)]. *)
Definition alsRun {A : Type} (tx : TransactionClient) (callback : Comp A)
    : Comp A :=
  fun _ w => callback (Some tx) w.

Definition getTransactionClient : Comp (option TransactionClient) :=
  getStore.

Definition runInTransactionContext (tx : TransactionClient)
    (callback : Comp (JsValue Val)) : Comp (JsValue Val) :=
  alsRun tx callback.

Definition runInTransaction (callback : Comp (JsValue Val))
    : Comp (JsValue Val) :=
  do existing <- getTransactionClient ;
  match existing with
  | Some tx => runInTransactionContext tx callback
  | None => transaction (fun tx => runInTransactionContext tx callback)
  end.

(** *** [src/lib/prisma-manager.ts] *)

Definition getPrismaClient : Comp PrismaClientLike :=
  do tx <- getTransactionClient ;
  match tx with
  | Some t => ret (TxClient t)
  | None => ret RootClient
  end.

(** *** [src/lib/base-repository.ts] *)

(** The object the [delegate] getter returns: the property [property]
    of [ofClient], of kind [kind]. *)
Record DelegateRef : Type := mkDelegateRef {
  ofClient : PrismaClientLike;
  property : string;
  kind : Member
}.

Definition delegate (r : Repository) : Comp DelegateRef :=
  do client <- getPrismaClient ;
  let name := resolveModelName r in
  match members client name with
  | None => throw (unknownModel r)
  | Some d => ret (mkDelegateRef client name d)
  end.

(** Calling a property that a non-delegate member does not have. *)
Definition notAFunction (m : Method) : JsError :=
  TypeError ("this.delegate." ++ methodName m ++ " is not a function").

(** [(d as any).method(args)]. *)
Definition invoke (d : DelegateRef) (m : Method) (args : Val)
    : Comp (JsValue Val) :=
  match kind d with
  | ModelDelegate => query (ofClient d) (property d) m args
  | UtilityMethod => throw (notAFunction m)
  end.

Definition BaseRepository_create (r : Repository) (args : Val) :=
  do d <- delegate r ; invoke d Create args.

Definition BaseRepository_findUnique (r : Repository) (args : Val) :=
  do d <- delegate r ; invoke d FindUnique args.

Definition BaseRepository_findMany (r : Repository) (args : Val) :=
  do d <- delegate r ; invoke d FindMany args.

Definition BaseRepository_update (r : Repository) (args : Val) :=
  do d <- delegate r ; invoke d Update args.

Definition BaseRepository_delete (r : Repository) (args : Val) :=
  do d <- delegate r ; invoke d Delete args.

(** The method of [BaseRepository] named by [m]. *)
Definition BaseRepository_method (m : Method)
    : Repository -> Val -> Comp (JsValue Val) :=
  match m with
  | Create => BaseRepository_create
  | FindUnique => BaseRepository_findUnique
  | FindMany => BaseRepository_findMany
  | Update => BaseRepository_update
  | Delete => BaseRepository_delete
  end.

(** *** [src/lib/decorators.ts] *)

(** A method: its [this]-binding, its arguments, its call. *)
Definition JsMethod : Type := Val -> list Val -> Comp (JsValue Val).

Record Descriptor : Type := mkDescriptor { value : option JsMethod }.

(** The function the decorator installs as [descriptor.value]. *)
Definition wrapped (originalMethod : JsMethod) : JsMethod :=
  fun this args =>
    async (
      do tx <- getTransactionClient ;
      match tx with
      | Some _ => originalMethod this args
      | None =>
          transaction (fun tx =>
            async (runInTransactionContext tx
                     (async (originalMethod this args))))
      end).

(** [Transactional()(target, propertyKey, descriptor)]. *)
Definition Transactional (descriptor : Descriptor) : Result Descriptor :=
  match value descriptor with
  | None =>
      Thrown (Error "Transactional decorator can only be applied to methods.")
  | Some originalMethod => Ok (mkDescriptor (Some (wrapped originalMethod)))
  end.

(** *** [src/lib/repository-factory.ts] and [src/index.ts] *)

(** The static members [class BaseRepository] declares: none, every
    member of the class is an instance member. *)
Definition BaseRepository_static (name : string)
    : option (string -> Result (string -> Repository)) :=
  None.

(** [BaseRepository.forModel(modelName)]: a call of a property lookup. *)
Definition defineRepository (name : string)
    : Result (string -> Repository) :=
  match BaseRepository_static "forModel" with
  | Some forModel => forModel name
  | None => Thrown (TypeError "BaseRepository.forModel is not a function")
  end.

(** The names [src/index.ts] exports. *)
Definition indexExports : list string :=
  ["BaseRepository"; "Transactional"; "runInTransaction";
   "getTransactionClient"; "getPrismaClient"; "prisma"; "initializePrisma";
   "shutdownPrisma"; "rootPrismaClient"; "Delegate"].

(** *** [src/lib/prisma-proxy.ts] *)

(** The [get] trap of the proxy [prisma]: the property [prop] of the
    client resolved at the moment of the read, [undefined] when that
    client has none. What is read belongs to that client (a function is
    bound to it, a delegate is its own). *)
Definition proxyGet (prop : string) : Comp (option DelegateRef) :=
  do client <- getPrismaClient ;
  ret (match members client prop with
       | Some k => Some (mkDelegateRef client prop k)
       | None => None
       end).

(** Reading a property of [undefined]. *)
Definition cannotRead (m : Method) : JsError :=
  TypeError ("Cannot read properties of undefined (reading '"
             ++ methodName m ++ "')").

(** Calling a property that a function read from the proxy does not have. *)
Definition proxyNotAFunction (prop : string) (m : Method) : JsError :=
  TypeError ("prisma." ++ prop ++ "." ++ methodName m ++ " is not a function").

(** [prisma[prop].method(args)]. *)
Definition proxyCall (prop : string) (m : Method) (args : Val)
    : Comp (JsValue Val) :=
  do value <- proxyGet prop ;
  match value with
  | None => throw (cannotRead m)
  | Some d =>
      match kind d with
      | ModelDelegate => query (ofClient d) (property d) m args
      | UtilityMethod => throw (proxyNotAFunction prop m)
      end
  end.

(** *** Operations written against the library

    The bodies of the async functions a caller hands to
    [runInTransaction] or marks with [@Transactional()], as in
    [src/__tests__/integration.test.ts]: they return, throw, await a
    repository call, await a nested unit of work (in either form), or
    guard a block with [try]/[catch]. Every query goes through a
    repository, never through [rootPrismaClient]. *)

Inductive Op : Type :=
| Done (v : Val)
| Raise (e : JsError)
| Crud (r : Repository) (m : Method) (args : Val) (k : Val -> Op)
| RunInTx (body : Op) (k : Val -> Op)
| CallTransactional (this : Val) (args : list Val)
    (method : Val -> list Val -> Op) (k : Val -> Op)
| Try (body : Op) (handler : JsError -> Op) (k : Val -> Op).

(** [try { body } catch (e) { handler }]. *)
Definition tryCatch {A : Type} (body : Comp A) (handler : JsError -> Comp A)
    : Comp A :=
  fun store w =>
    match body store w with
    | (Ok a, w') => (Ok a, w')
    | (Thrown e, w') => handler e store w'
    end.

(** The body of an async function, run. *)
Fixpoint run (p : Op) : Comp Val :=
  match p with
  | Done v => ret v
  | Raise e => throw e
  | Crud r m args k =>
      do x <- BaseRepository_method m r args ;
      do v <- await x ;
      run (k v)
  | RunInTx body k =>
      do x <- runInTransaction (asyncBody (run body)) ;
      do v <- await x ;
      run (k v)
  | CallTransactional this args method k =>
      do x <- wrapped (fun t a => asyncBody (run (method t a))) this args ;
      do v <- await x ;
      run (k v)
  | Try body handler k =>
      do v <- tryCatch (run body) (fun e => run (handler e)) ;
      run (k v)
  end.

(** The wording of the specification for a unit of work: the queries of
    the operation applied in program order to one store, through the
    delegates of [client]; nested units of work add nothing of their
    own. *)
Fixpoint effect (client : PrismaClientLike) (p : Op) (s : Store)
    : Result Val * Store :=
  match p with
  | Done v => (Ok v, s)
  | Raise e => (Thrown e, s)
  | Crud r m args k =>
      match members client (resolveModelName r) with
      | None => (Thrown (unknownModel r), s)
      | Some UtilityMethod => (Thrown (notAFunction m), s)
      | Some ModelDelegate =>
          match exec (resolveModelName r) m args s with
          | (Ok v, s') => effect client (k v) s'
          | (Thrown e, s') => (Thrown e, s')
          end
      end
  | RunInTx body k =>
      match effect client body s with
      | (Ok v, s') => effect client (k v) s'
      | (Thrown e, s') => (Thrown e, s')
      end
  | CallTransactional this args method k =>
      match effect client (method this args) s with
      | (Ok v, s') => effect client (k v) s'
      | (Thrown e, s') => (Thrown e, s')
      end
  | Try body handler k =>
      match effect client body s with
      | (Ok v, s') => effect client (k v) s'
      | (Thrown e, s') =>
          match effect client (handler e) s' with
          | (Ok v, s'') => effect client (k v) s''
          | (Thrown e', s'') => (Thrown e', s'')
          end
      end
  end.

(** The wording of the specification for the resolver: the active
    handle if there is one, the root handle otherwise. *)
Definition resolved (store : option TransactionClient) : PrismaClientLike :=
  match store with
  | Some tx => TxClient tx
  | None => RootClient
  end.

(** A call that, made under an installed transaction client, lets no
    [$transaction] call reach the engine. *)
Definition joins {A : Type} (call : Comp A) : Prop :=
  forall tx w, opens (snd (call (Some tx) w)) = opens w.

(** A call that, made under an installed transaction client, leaves the
    committed store as it is. *)
Definition shielded {A : Type} (call : Comp A) : Prop :=
  forall tx w, committed (snd (call (Some tx) w)) = committed w.

End Library.

(** ** [src/lib/client.ts]: the life cycle of the root client

    What the two functions consume from the outside: [Host] is the state
    of the process (the connection of [rootPrismaClient], the console),
    [connect], [disconnect] and [queryRawUnsafe] are what awaiting
    [$connect()], [$disconnect()] and [$queryRawUnsafe(sql)] yields, and
    [warn] is [console.warn] with a label and the caught error. *)

Class Runtime : Type := mkRuntime {
  Host : Type;
  Raw : Type;
  connect : Host -> Result unit * Host;
  disconnect : Host -> Result unit * Host;
  queryRawUnsafe : string -> Host -> Result Raw * Host;
  warn : string -> JsError -> Host -> Host
}.

(** [InitializePrismaOptions]: the optional field [enableWAL]. *)
Record InitializePrismaOptions : Type := mkOptions {
  enableWAL : option bool
}.

Section Lifecycle.

Context {R : Runtime}.

(** [initializePrisma(options = {})]: an async function, so a promise. *)
Definition initializePrisma (options : option InitializePrismaOptions)
    (h : Host) : Promise unit * Host :=
  let options :=
    match options with
    | Some o => o
    | None => mkOptions None
    end in
  let enableWAL :=
    match enableWAL options with
    | Some b => b
    | None => false
    end in
  match connect h with
  | (Thrown e, h1) => (Rejected e, h1)
  | (Ok _, h1) =>
      if negb enableWAL then (Fulfilled tt, h1)
      else
        match queryRawUnsafe "PRAGMA journal_mode = WAL;" h1 with
        | (Ok _, h2) => (Fulfilled tt, h2)
        | (Thrown error, h2) =>
            (Fulfilled tt, warn "Failed to enable WAL mode:" error h2)
        end
  end.

(** [shutdownPrisma()]. *)
Definition shutdownPrisma (h : Host) : Promise unit * Host :=
  match disconnect h with
  | (Ok _, h1) => (Fulfilled tt, h1)
  | (Thrown e, h1) => (Rejected e, h1)
  end.

End Lifecycle.

(** ** A reference engine

    A small engine on which the library can be evaluated: two models,
    [user] and [post], rows identified by a unique key; the root client
    also carries the members the sources call on it. The programs are
    those of [src/__tests__/integration.test.ts]. *)

Module Demo.

Inductive DVal : Type :=
| DNull
| DNum (n : nat)
| DStr (s : string).

Definition DStore : Type := list (string * string).

Definition isRow (model key : string) (row : string * string) : bool :=
  String.eqb (fst row) model && String.eqb (snd row) key.

Definition hasRow (model key : string) (s : DStore) : bool :=
  existsb (isRow model key) s.

Definition countRows (model : string) (s : DStore) : nat :=
  List.length (List.filter (fun row => String.eqb (fst row) model) s).

Definition dropRow (model key : string) (s : DStore) : DStore :=
  List.filter (fun row => negb (isRow model key row)) s.

Definition uniqueViolation : JsError :=
  mkError "PrismaClientKnownRequestError" "Unique constraint failed".

Definition recordNotFound : JsError :=
  mkError "PrismaClientKnownRequestError" "Record not found".

Definition invalidArguments : JsError :=
  mkError "PrismaClientValidationError" "Invalid arguments".

Definition demoExec (model : string) (m : Method) (args : DVal) (s : DStore)
    : Result DVal * DStore :=
  match m, args with
  | Create, DStr key =>
      if hasRow model key s then (Thrown uniqueViolation, s)
      else (Ok (DStr key), (s ++ [(model, key)])%list)
  | FindUnique, DStr key =>
      (Ok (if hasRow model key s then DStr key else DNull), s)
  | FindMany, _ => (Ok (DNum (countRows model s)), s)
  | Update, DStr key =>
      if hasRow model key s then (Ok (DStr key), s)
      else (Thrown recordNotFound, s)
  | Delete, DStr key =>
      if hasRow model key s then (Ok (DStr key), dropRow model key s)
      else (Thrown recordNotFound, s)
  | _, _ => (Thrown invalidArguments, s)
  end.

Definition isModel (name : string) : bool :=
  String.eqb name "user" || String.eqb name "post".

Definition isRootUtility (name : string) : bool :=
  String.eqb name "$transaction" || String.eqb name "$connect"
  || String.eqb name "$disconnect" || String.eqb name "$queryRawUnsafe".

Definition demoMembers (client : PrismaClientLike) (name : string)
    : option Member :=
  if isModel name then Some ModelDelegate
  else match client with
       | RootClient => if isRootUtility name then Some UtilityMethod else None
       | TxClient _ => None
       end.

Definition demoEngine : Engine :=
  mkEngine DVal DStore demoExec demoMembers.

Definition emptyWorld : @World demoEngine :=
  @mkWorld demoEngine ([] : DStore) ∅ 0.

Definition userRepo : Repository := newRepository "UserRepository" None.
Definition postRepo : Repository := newRepository "PostRepository" None.

(** [UserService.createUserAndPost]. *)
Definition createUserAndPost (email title : string) : @Op demoEngine :=
  @Crud demoEngine userRepo Create (DStr email) (fun user =>
  @Crud demoEngine postRepo Create (DStr title) (fun _ =>
  @Done demoEngine user)).

(** [UserService.createThenFail]. *)
Definition createThenFail (email : string) : @Op demoEngine :=
  @Crud demoEngine userRepo Create (DStr email) (fun _ =>
  Raise (Error "Simulated Failure")).

(** [UserService.nestedTransaction]: a decorated method calling another. *)
Definition nestedTransaction (email title : string) : @Op demoEngine :=
  @CallTransactional demoEngine DNull [DStr email; DStr title]
    (fun _ _ => createUserAndPost email title)
    (fun user => @Done demoEngine user).

(** A method that is not async: it returns its first argument as it is. *)
Definition plainMethod : @JsMethod demoEngine :=
  fun _ args => @ret demoEngine _ (Plain (hd DNull args)).

(** A method typed as returning a promise that throws before making one. *)
Definition throwingMethod : @JsMethod demoEngine :=
  fun _ _ => throw (Error "invalid input").

End Demo.
(** ** Properties of the string primitives *)

Section StringFacts.

Lemma length_append (a b : string) :
  String.length (a ++ b) = String.length a + String.length b.
Proof. induction a as [|c a IH]; simpl; [reflexivity | now rewrite IH]. Qed.

Lemma substring_whole (s : string) : substring 0 (String.length s) s = s.
Proof. induction s as [|c s IH]; simpl; [reflexivity | now rewrite IH]. Qed.

Lemma substring_prefix (a b : string) :
  substring 0 (String.length a) (a ++ b) = a.
Proof.
  induction a as [|c a IH]; simpl.
  - now destruct b.
  - now rewrite IH.
Qed.

Lemma substring_suffix (a b : string) :
  substring (String.length a) (String.length b) (a ++ b) = b.
Proof.
  induction a as [|c a IH]; simpl; [apply substring_whole | exact IH].
Qed.

Lemma endsWith_append (base suffix : string) :
  JsString.endsWith (base ++ suffix) suffix = true.
Proof.
  unfold JsString.endsWith. rewrite length_append.
  replace (String.length base + String.length suffix - String.length suffix)
    with (String.length base) by lia.
  rewrite substring_suffix, String.eqb_refl, andb_true_r.
  apply Nat.leb_le. lia.
Qed.

Lemma slice_strips_suffix (base suffix : string) :
  suffix <> EmptyString ->
  JsString.slice (base ++ suffix) 0 (- Z.of_nat (String.length suffix)) = base.
Proof.
  intros Hne.
  assert (Hlen : 0 < String.length suffix).
  { destruct suffix; [congruence | simpl; lia]. }
  unfold JsString.slice, JsString.clampIndex. rewrite length_append.
  destruct (Z.ltb_spec 0 0) as [Hzero|_]; [lia|].
  destruct (Z.ltb_spec (- Z.of_nat (String.length suffix)) 0) as [_|Hge]; [|lia].
  replace (Z.to_nat (Z.min 0 _)) with 0 by lia.
  match goal with
  | |- substring 0 (Z.to_nat ?z) _ = _ =>
      replace (Z.to_nat z) with (String.length base) by lia
  end.
  apply substring_prefix.
Qed.

Lemma sliceFrom_tail (c : ascii) (rest : string) :
  JsString.sliceFrom (String c rest) 1 = rest.
Proof.
  unfold JsString.sliceFrom, JsString.slice, JsString.clampIndex.
  change (String.length (String c rest)) with (S (String.length rest)).
  destruct (Z.ltb_spec 1 0) as [Hneg|_]; [lia|].
  destruct (Z.ltb_spec (Z.of_nat (S (String.length rest))) 0) as [Hneg|_]; [lia|].
  replace (Z.to_nat (Z.min 1 _)) with 1 by lia.
  match goal with
  | |- substring 1 (Z.to_nat ?z) _ = _ =>
      replace (Z.to_nat z) with (String.length rest) by lia
  end.
  simpl. apply substring_whole.
Qed.

Lemma lowerFirst_charAt_sliceFrom (s : string) :
  JsString.toLowerCase (JsString.charAt s 0) ++ JsString.sliceFrom s 1
  = lowerFirst s.
Proof.
  destruct s as [|c rest]; [reflexivity|].
  rewrite sliceFrom_tail. reflexivity.
Qed.

Lemma inferModelName_suffix (base : string) :
  inferModelName (base ++ "Repository") = lowerFirst base.
Proof.
  unfold inferModelName. rewrite endsWith_append.
  rewrite slice_strips_suffix by discriminate.
  apply lowerFirst_charAt_sliceFrom.
Qed.


Lemma truthy_nonempty (s : string) : s <> EmptyString -> JsString.truthy s = true.
Proof. destruct s; [congruence | reflexivity]. Qed.

End StringFacts.

(** ** Model-name resolution *)

(** C7. The model name a repository uses is its explicitly configured
    name whenever one was supplied (a configured name has the type
    [Uncapitalize<M>], so it is never the empty string); only with no
    explicit name (or with the empty string, which JavaScript treats as
    absent) is it inferred from the class name, by stripping the suffix
    [Repository] and lower-casing the first letter, so that
    [UserRepository] infers [user]. *)
Theorem resolveModelName_explicit_first (r : Repository) (name base : string) :
  (modelName r = Some name -> name <> EmptyString ->
   resolveModelName r = name)
  /\ (modelName r = None \/ modelName r = Some EmptyString ->
      className r = base ++ "Repository" ->
      resolveModelName r = lowerFirst base)
  /\ resolveModelName (newRepository "UserRepository" None) = "user".
Proof.
  unfold resolveModelName. split; [|split].
  - intros Hname Hne. rewrite Hname.
    rewrite (truthy_nonempty name Hne). reflexivity.
  - intros [Hnone|Hempty] Hcls.
    + rewrite Hnone, Hcls. apply inferModelName_suffix.
    + rewrite Hempty, Hcls. simpl. apply inferModelName_suffix.
  - reflexivity.
Qed.

Lemma resolveModelName_explicit_first_witness :
  resolveModelName (newRepository "AccountStore" (Some "user")) = "user"
  /\ resolveModelName (newRepository "PostRepository" None) = "post".
Proof.
  pose proof (resolveModelName_explicit_first
                (newRepository "AccountStore" (Some "user")) "user" EmptyString) as H1.
  pose proof (resolveModelName_explicit_first
                (newRepository "PostRepository" None) EmptyString "Post") as H2.
  destruct H1 as [H1 _]. destruct H2 as [_ [H2 _]].
  split.
  - apply H1; [reflexivity | discriminate].
  - apply H2; [left|]; reflexivity.
Defined.

(** Outside the declared type: an empty string passed by an untyped
    caller counts as no name, and the name is inferred. *)
Lemma empty_explicit_name_is_ignored :
  modelName (newRepository "UserRepository" (Some EmptyString))
  = Some EmptyString
  /\ resolveModelName (newRepository "UserRepository" (Some EmptyString))
     = "user"
  /\ "user" <> EmptyString.
Proof. repeat split. discriminate. Qed.

(** ** Properties of the library, for every engine *)

Section Properties.

Context {E : Engine}.

Notation "'do' x <- m ; k" := (bind m (fun x => k))
  (at level 10, x name, m at level 100, k at level 200).

(** *** The client resolver *)

Lemma getPrismaClient_eq (store : option TransactionClient) (w : World) :
  getPrismaClient store w = (Ok (resolved store), w).
Proof. destruct store; reflexivity. Qed.

(** C4. [getPrismaClient] returns the transaction client held by the
    ambient context when there is one and the root client otherwise; it
    returns at once (a value, not a promise), never throws and leaves
    the state as it found it. *)
Theorem getPrismaClient_resolves (store : option TransactionClient) (w : World) :
  getPrismaClient store w = (Ok (resolved store), w)
  /\ getTransactionClient store w = (Ok store, w).
Proof. split; [apply getPrismaClient_eq | reflexivity]. Qed.

(** *** The repository base *)

Lemma BaseRepository_method_unfold (m : Method) (r : Repository) (args : Val) :
  BaseRepository_method m r args = (do d <- delegate r ; invoke d m args).
Proof. destruct m; reflexivity. Qed.

Lemma delegate_lookup (r : Repository) (store : option TransactionClient)
    (w : World) :
  delegate r store w =
  match members (resolved store) (resolveModelName r) with
  | None => (Thrown (unknownModel r), w)
  | Some d => (Ok (mkDelegateRef (resolved store) (resolveModelName r) d), w)
  end.
Proof.
  unfold delegate, bind. rewrite getPrismaClient_eq.
  destruct (members _ _); reflexivity.
Qed.

Lemma BaseRepository_method_eq (m : Method) (r : Repository)
    (args : Val) (store : option TransactionClient) (w : World) :
  BaseRepository_method m r args store w =
  match members (resolved store) (resolveModelName r) with
  | None => (Thrown (unknownModel r), w)
  | Some ModelDelegate =>
      query (resolved store) (resolveModelName r) m args store w
  | Some UtilityMethod => (Thrown (notAFunction m), w)
  end.
Proof.
  rewrite BaseRepository_method_unfold. unfold bind.
  rewrite delegate_lookup.
  destruct (members _ _) as [[|]|]; reflexivity.
Qed.



(** *** The repository factory *)

(** C8, on the sources. [defineRepository] calls the static member
    [forModel] of [BaseRepository]; the class declares no static member,
    so the call throws a [TypeError] for every model name, and the
    package entry point does not export the factory. *)
Theorem defineRepository_throws (name : string) :
  defineRepository name
  = Thrown (TypeError "BaseRepository.forModel is not a function")
  /\ BaseRepository_static "forModel" = None
  /\ existsb (String.eqb "defineRepository") indexExports = false.
Proof. repeat split. Qed.

(** *** The decorator *)

Lemma await_asyncBody (body : Comp Val) (store : option TransactionClient)
    (w : World) :
  (do x <- asyncBody body ; await x) store w = body store w.
Proof.
  unfold bind, asyncBody. destruct (body store w) as [[v|e] w']; reflexivity.
Qed.

Lemma asyncBody_ext (f g : Comp Val) (store : option TransactionClient)
    (w : World) :
  f store w = g store w -> asyncBody f store w = asyncBody g store w.
Proof. unfold asyncBody. now intros ->. Qed.

Lemma await_async (call : Comp (JsValue Val))
    (store : option TransactionClient) (w : World) :
  (do x <- async call ; await x) store w = (do x <- call ; await x) store w.
Proof. unfold async. apply await_asyncBody. Qed.

Lemma async_promise (call : Comp (JsValue Val))
    (store : option TransactionClient) (w : World) (p : Promise Val) :
  fst (call store w) = Ok (Prom p) -> async call store w = call store w.
Proof.
  unfold async, asyncBody, bind.
  destruct (call store w) as [[[v|[v|e]]|e] w']; simpl; intros H;
    inversion H; reflexivity.
Qed.

Lemma transaction_promise (callback : TransactionClient -> Comp (JsValue Val))
    (store : option TransactionClient) (w : World) :
  exists p, fst (transaction callback store w) = Ok (Prom p).
Proof.
  unfold transaction.
  destruct ((do x <- callback (Itx (opens w)) ; await x) store (begin w))
    as [[v|e] w']; eexists; reflexivity.
Qed.

Lemma transaction_ext (f g : TransactionClient -> Comp (JsValue Val))
    (store : option TransactionClient) (w : World) :
  (do x <- f (Itx (opens w)) ; await x) store (begin w)
  = (do x <- g (Itx (opens w)) ; await x) store (begin w) ->
  transaction f store w = transaction g store w.
Proof. unfold transaction. now intros ->. Qed.

Lemma await_alsRun (call : Comp (JsValue Val)) (tx : TransactionClient)
    (store : option TransactionClient) (w : World) :
  (do x <- runInTransactionContext tx call ; await x) store w
  = (do x <- call ; await x) (Some tx) w.
Proof.
  unfold runInTransactionContext, alsRun, bind.
  destruct (call (Some tx) w) as [[[v|[v|e]]|e] w']; reflexivity.
Qed.

(** The decorated method under an active transaction: the original
    method, called in the same context, behind an [async] function. *)
Lemma wrapped_active (originalMethod : JsMethod) (this : Val)
    (args : list Val) (tx : TransactionClient) (w : World) :
  wrapped originalMethod this args (Some tx) w
  = async (originalMethod this args) (Some tx) w.
Proof. reflexivity. Qed.

Lemma runInTransaction_active (callback : Comp (JsValue Val))
    (tx : TransactionClient) (w : World) :
  runInTransaction callback (Some tx) w = callback (Some tx) w.
Proof. reflexivity. Qed.

Lemma runInTransaction_idle (callback : Comp (JsValue Val)) (w : World) :
  runInTransaction callback None w
  = transaction (fun tx => runInTransactionContext tx callback) None w.
Proof. reflexivity. Qed.

Lemma wrapped_idle (originalMethod : JsMethod) (this : Val) (args : list Val)
    (w : World) :
  wrapped originalMethod this args None w
  = transaction
      (fun tx => runInTransactionContext tx (originalMethod this args)) None w.
Proof.
  unfold wrapped.
  assert (Hinner : forall f g : TransactionClient -> Comp (JsValue Val),
            transaction f None w = transaction g None w ->
            async (do tx <- getTransactionClient ;
                   match tx with
                   | Some _ => originalMethod this args
                   | None => transaction f
                   end) None w = transaction g None w).
  { intros f g Hfg.
    destruct (transaction_promise g None w) as [p Hp].
    erewrite async_promise.
    - exact Hfg.
    - unfold bind. simpl. rewrite Hfg. exact Hp. }
  apply Hinner. apply transaction_ext.
  rewrite await_async.
  rewrite !await_alsRun. apply await_async.
Qed.

(** C9, as amended. The decorator throws its usage error at decoration
    time exactly when the descriptor carries no method; any method is
    accepted as it is, and the decorated method always hands back a
    promise: when the original method returns a plain value, the
    promise is fulfilled with that value and nothing is reported. *)
Theorem Transactional_checks_method_only (descriptor : Descriptor) :
  Transactional descriptor
  = match value descriptor with
    | None =>
        Thrown (Error "Transactional decorator can only be applied to methods.")
    | Some originalMethod => Ok (mkDescriptor (Some (wrapped originalMethod)))
    end
  /\ (forall originalMethod this args store w,
        exists p, fst (wrapped originalMethod this args store w) = Ok (Prom p))
  /\ (forall originalMethod this args tx w v w',
        originalMethod this args (Some tx) w = (Ok (Plain v), w') ->
        wrapped originalMethod this args (Some tx) w
        = (Ok (Prom (Fulfilled v)), w'))
  /\ (forall originalMethod this args w v w',
        originalMethod this args (Some (Itx (opens w))) (begin w)
        = (Ok (Plain v), w') ->
        wrapped originalMethod this args None w
        = (Ok (Prom (Fulfilled v)), commit (opens w) w')).
Proof.
  split; [reflexivity|]. split; [|split].
  - intros originalMethod this args [tx|] w.
    + rewrite wrapped_active. unfold async, asyncBody.
      destruct ((do x <- originalMethod this args ; await x) (Some tx) w)
        as [[v|e] w']; eexists; reflexivity.
    + rewrite wrapped_idle. apply transaction_promise.
  - intros originalMethod this args tx w v w' Hplain.
    rewrite wrapped_active. unfold async, asyncBody, bind.
    rewrite Hplain. reflexivity.
  - intros originalMethod this args w v w' Hplain.
    rewrite wrapped_idle. unfold transaction. rewrite await_alsRun.
    unfold bind. rewrite Hplain. reflexivity.
Qed.

(** C3, as amended. For every method, [this]-binding and argument list,
    the decorated method is [runInTransaction] applied to the call of
    the original method on the same [this] and arguments, made from
    inside the [async] function of the decorator: a caller that awaits
    the result gets the same value or error, with the same engine state
    and the same ambient context for the method body. What is handed
    back before awaiting is the decorator's own promise, not what
    [runInTransaction] returns or throws. *)
Theorem Transactional_is_runInTransaction (originalMethod : JsMethod)
    (this : Val) (args : list Val) (store : option TransactionClient)
    (w : World) :
  wrapped originalMethod this args store w
  = async (runInTransaction (originalMethod this args)) store w
  /\ (do x <- wrapped originalMethod this args ; await x) store w
     = (do x <- runInTransaction (originalMethod this args) ; await x) store w.
Proof.
  assert (Hgen : wrapped originalMethod this args store w
                 = async (runInTransaction (originalMethod this args)) store w).
  { destruct store as [tx|].
    - reflexivity.
    - rewrite wrapped_idle, <- runInTransaction_idle.
      destruct (transaction_promise
                  (fun tx => runInTransactionContext tx (originalMethod this args))
                  None w) as [p Hp].
      symmetry. apply (async_promise _ _ _ p).
      rewrite runInTransaction_idle. exact Hp. }
  split; [exact Hgen|].
  transitivity ((do x <- async (runInTransaction (originalMethod this args)) ;
                 await x) store w).
  - unfold bind. now rewrite Hgen.
  - apply await_async.
Qed.

(** *** Operations inside an active transaction *)

Lemma setWorking_lookup (id : nat) (s : Store) (w : World) :
  working (setWorking id s w) !! id = Some s.
Proof. unfold setWorking; simpl. apply lookup_insert_eq. Qed.

Lemma setWorking_again (id : nat) (s s' : Store) (w : World) :
  setWorking id s' (setWorking id s w) = setWorking id s' w.
Proof. unfold setWorking; simpl. now rewrite insert_insert_eq. Qed.

Lemma setWorking_same (id : nat) (s : Store) (w : World) :
  working w !! id = Some s -> setWorking id s w = w.
Proof.
  intros Hw. destruct w as [c wk n]; unfold setWorking; simpl in *.
  now rewrite insert_id.
Qed.

Lemma asyncBody_settle (body : Comp Val) (store : option TransactionClient)
    (w : World) :
  asyncBody body store w
  = (Ok (Prom (settle (fst (body store w)))), snd (body store w)).
Proof. unfold asyncBody. destruct (body store w) as [[v|e] w']; reflexivity. Qed.

Lemma await_then (call : Comp (JsValue Val)) (k : Val -> Comp Val)
    (store : option TransactionClient) (w w1 : World) (r : Result Val) :
  call store w = (Ok (Prom (settle r)), w1) ->
  (do x <- call ; do v <- await x ; k v) store w
  = match r with
    | Ok v => k v store w1
    | Thrown e => (Thrown e, w1)
    end.
Proof. unfold bind. intros ->. destruct r; reflexivity. Qed.

Lemma query_in_transaction (id : nat) (model : string) (m : Method)
    (args : Val) (store : option TransactionClient) (w : World) (s : Store) :
  working w !! id = Some s ->
  query (TxClient (Itx id)) model m args store w
  = (Ok (Prom (settle (fst (exec model m args s)))),
     setWorking id (snd (exec model m args s)) w).
Proof.
  intros Hw. unfold query. rewrite Hw.
  destruct (exec model m args s); reflexivity.
Qed.

(** Resume with the induction hypothesis [IH] at [x], on the working
    copy [s] that the step before left. *)
Ltac resume IH x s :=
  rewrite (IH x _ _ s) by apply setWorking_lookup;
  rewrite setWorking_again; try reflexivity.

(** Inside transaction [id] an operation does to the working copy what
    [effect] says, and touches nothing else. *)
Lemma run_in_transaction (p : Op) :
  forall (id : nat) (w : World) (s : Store),
    working w !! id = Some s ->
    run p (Some (Itx id)) w
    = (fst (effect (TxClient (Itx id)) p s),
       setWorking id (snd (effect (TxClient (Itx id)) p s)) w).
Proof.
  induction p as [v | e | r m args k IHk | body IHbody k IHk
                 | this args method IHmethod k IHk
                 | body IHbody handler IHhandler k IHk];
    intros id w s Hw; simpl.
  - unfold ret. now rewrite setWorking_same.
  - unfold throw. now rewrite setWorking_same.
  - pose proof (BaseRepository_method_eq m r args (Some (Itx id)) w) as Hcall.
    change (resolved (Some (Itx id))) with (TxClient (Itx id)) in Hcall.
    destruct (members (TxClient (Itx id)) (resolveModelName r)) as [[|]|].
    + rewrite (query_in_transaction id _ _ _ _ w s Hw) in Hcall.
      rewrite (await_then _ _ _ _ _ _ Hcall).
      destruct (exec (resolveModelName r) m args s) as [[v|e] s1]; simpl;
        [resume IHk v s1 | reflexivity].
    + unfold bind. rewrite Hcall. simpl. now rewrite setWorking_same.
    + unfold bind. rewrite Hcall. simpl. now rewrite setWorking_same.
  - assert (Hcall : runInTransaction (asyncBody (run body)) (Some (Itx id)) w
                    = (Ok (Prom (settle (fst (effect (TxClient (Itx id)) body s)))),
                       setWorking id (snd (effect (TxClient (Itx id)) body s)) w)).
    { rewrite runInTransaction_active, asyncBody_settle.
      now rewrite (IHbody id w s Hw). }
    rewrite (await_then _ _ _ _ _ _ Hcall).
    destruct (effect (TxClient (Itx id)) body s) as [[v|e] s1]; simpl;
      [resume IHk v s1 | reflexivity].
  - assert (Hcall : wrapped (fun t a => asyncBody (run (method t a))) this args
                      (Some (Itx id)) w
                    = (Ok (Prom (settle
                         (fst (effect (TxClient (Itx id)) (method this args) s)))),
                       setWorking id
                         (snd (effect (TxClient (Itx id)) (method this args) s)) w)).
    { rewrite wrapped_active. unfold async.
      rewrite (asyncBody_ext _ (run (method this args)))
        by apply await_asyncBody.
      rewrite asyncBody_settle. now rewrite (IHmethod this args id w s Hw). }
    rewrite (await_then _ _ _ _ _ _ Hcall).
    destruct (effect (TxClient (Itx id)) (method this args) s) as [[v|e] s1];
      simpl; [resume IHk v s1 | reflexivity].
  - unfold bind, tryCatch. rewrite (IHbody id w s Hw).
    destruct (effect (TxClient (Itx id)) body s) as [[v|e] s1]; simpl;
      [resume IHk v s1|].
    resume IHhandler e s1.
    destruct (effect (TxClient (Itx id)) (handler e) s1) as [[v|e'] s2]; simpl;
      [resume IHk v s2 | reflexivity].
Qed.

(** *** Flattening: no second transaction *)

Lemma joins_ret {A : Type} (a : A) : joins (ret a).
Proof. intros tx w. reflexivity. Qed.

Lemma joins_throw {A : Type} (e : JsError) : joins (@throw E A e).
Proof. intros tx w. reflexivity. Qed.

Lemma joins_bind {A B : Type} (m : Comp A) (k : A -> Comp B) :
  joins m -> (forall a, joins (k a)) -> joins (do x <- m ; k x).
Proof.
  intros Hm Hk tx w. unfold bind. specialize (Hm tx w).
  destruct (m (Some tx) w) as [[a|e] w']; simpl in *.
  - now rewrite Hk.
  - exact Hm.
Qed.

Lemma joins_await (x : JsValue Val) : joins (await x).
Proof. destruct x as [v|[v|e]]; intros tx w; reflexivity. Qed.

Lemma joins_asyncBody (body : Comp Val) : joins body -> joins (asyncBody body).
Proof.
  intros Hbody tx w. rewrite asyncBody_settle. apply Hbody.
Qed.

Lemma joins_tryCatch {A : Type} (body : Comp A) (handler : JsError -> Comp A) :
  joins body -> (forall e, joins (handler e)) -> joins (tryCatch body handler).
Proof.
  intros Hbody Hhandler tx w. unfold tryCatch. specialize (Hbody tx w).
  destruct (body (Some tx) w) as [[a|e] w']; simpl in *.
  - exact Hbody.
  - now rewrite Hhandler.
Qed.

Lemma query_keeps_opens (client : PrismaClientLike) (model : string)
    (m : Method) (args : Val) (store : option TransactionClient) (w : World) :
  opens (snd (query client model m args store w)) = opens w.
Proof.
  unfold query. destruct client as [|[id]].
  - destruct (exec model m args (committed w)); reflexivity.
  - destruct (working w !! id) as [s|]; [|reflexivity].
    destruct (exec model m args s); reflexivity.
Qed.

Lemma joins_method (m : Method) (r : Repository) (args : Val) :
  joins (BaseRepository_method m r args).
Proof.
  intros tx w. rewrite BaseRepository_method_eq.
  destruct (members _ _) as [[|]|]; try reflexivity.
  apply query_keeps_opens.
Qed.

Lemma joins_runInTransaction (callback : Comp (JsValue Val)) :
  joins callback -> joins (runInTransaction callback).
Proof. intros Hcb tx w. rewrite runInTransaction_active. apply Hcb. Qed.

Lemma joins_wrapped (originalMethod : JsMethod) (this : Val) (args : list Val) :
  joins (originalMethod this args) -> joins (wrapped originalMethod this args).
Proof.
  intros Hm tx w. rewrite wrapped_active. unfold async.
  apply joins_asyncBody. apply joins_bind; [exact Hm | apply joins_await].
Qed.

Create HintDb joins.

#[local] Hint Resolve joins_ret joins_throw joins_await joins_method
  joins_asyncBody joins_runInTransaction joins_tryCatch joins_bind : joins.

Lemma run_joins (p : Op) : joins (run p).
Proof.
  induction p as [v | e | r m args k IHk | body IHbody k IHk
                 | this args method IHmethod k IHk
                 | body IHbody handler IHhandler k IHk]; simpl;
    auto 6 with joins.
  apply joins_bind; [|auto with joins].
  apply (joins_wrapped (fun t a => asyncBody (run (method t a)))).
  auto with joins.
Qed.

Lemma transaction_opens_once (callback : TransactionClient -> Comp (JsValue Val))
    (w : World) :
  joins (callback (Itx (opens w))) ->
  opens (snd (transaction (fun tx => runInTransactionContext tx (callback tx))
                None w)) = S (opens w).
Proof.
  intros Hcb. unfold transaction. rewrite await_alsRun.
  pose proof (joins_bind _ _ Hcb joins_await (Itx (opens w)) (begin w)) as Hin.
  destruct ((do x <- callback (Itx (opens w)) ; await x)
              (Some (Itx (opens w))) (begin w)) as [[v|e] w']; simpl in *.
  - unfold commit. destruct (working w' !! opens w); simpl; exact Hin.
  - exact Hin.
Qed.

(** C1. When a transaction client is already installed, a unit-of-work
    entry point opens nothing: [runInTransaction] is the call of its
    callback and a decorated method is the call of the original method,
    both in the same context; an operation with any nesting of units
    of work lets no [$transaction] call reach the engine while a client
    is installed, so a unit of work entered with none installed makes
    the engine see exactly one. *)
Theorem nested_units_open_one_transaction (callback : Comp (JsValue Val))
    (originalMethod : JsMethod) (this : Val) (args : list Val)
    (tx : TransactionClient) (p : Op) (method : Val -> list Val -> Op)
    (w : World) :
  runInTransaction callback (Some tx) w = callback (Some tx) w
  /\ wrapped originalMethod this args (Some tx) w
     = async (originalMethod this args) (Some tx) w
  /\ opens (snd (run p (Some tx) w)) = opens w
  /\ opens (snd (runInTransaction (asyncBody (run p)) None w)) = S (opens w)
  /\ opens (snd (wrapped (fun t a => asyncBody (run (method t a))) this args
                   None w)) = S (opens w).
Proof.
  split; [reflexivity|]. split; [reflexivity|]. split; [apply run_joins|].
  split.
  - rewrite runInTransaction_idle.
    apply (transaction_opens_once (fun _ => asyncBody (run p))).
    apply joins_asyncBody, run_joins.
  - rewrite wrapped_idle.
    apply (transaction_opens_once (fun _ => asyncBody (run (method this args)))).
    apply joins_asyncBody, run_joins.
Qed.

(** *** Commit and rollback *)

Lemma unit_of_work_effect (p : Op) (w : World) :
  runInTransaction (asyncBody (run p)) None w
  = match effect (TxClient (Itx (opens w))) p (committed w) with
    | (Ok v, s) =>
        (Ok (Prom (Fulfilled v)),
         mkWorld s (delete (opens w) (working w)) (S (opens w)))
    | (Thrown e, _) =>
        (Ok (Prom (Rejected e)),
         mkWorld (committed w) (delete (opens w) (working w)) (S (opens w)))
    end.
Proof.
  rewrite runInTransaction_idle. unfold transaction.
  rewrite await_alsRun, await_asyncBody.
  rewrite (run_in_transaction p (opens w) (begin w) (committed w))
    by (unfold begin; simpl; apply lookup_insert_eq).
  destruct (effect (TxClient (Itx (opens w))) p (committed w)) as [[v|e] s];
    simpl.
  - unfold commit, setWorking, begin; simpl.
    rewrite lookup_insert_eq, insert_insert_eq, delete_insert_eq. reflexivity.
  - unfold rollback, setWorking, begin; simpl.
    rewrite insert_insert_eq, delete_insert_eq. reflexivity.
Qed.

(** C2. With no transaction active, [runInTransaction] opens one and
    runs the callback in it: when the callback throws or rejects, the
    transaction is rolled back and the promise rejects with that very
    error; when it completes, the transaction is committed and the
    promise is fulfilled with its value. For an operation this means:
    on failure the committed store is the one from before, the working
    copy is gone and every later query on the root client answers as
    if the unit of work had never run; on success the committed store
    is the one the operation's queries produce in order. *)
Theorem runInTransaction_commits_or_rolls_back (callback : Comp (JsValue Val))
    (p : Op) (w : World) :
  runInTransaction callback None w
  = match (do x <- callback ; await x) (Some (Itx (opens w))) (begin w) with
    | (Ok v, w') => (Ok (Prom (Fulfilled v)), commit (opens w) w')
    | (Thrown e, w') => (Ok (Prom (Rejected e)), rollback (opens w) w')
    end
  /\ match effect (TxClient (Itx (opens w))) p (committed w) with
     | (Ok v, s) =>
         fst (runInTransaction (asyncBody (run p)) None w)
         = Ok (Prom (Fulfilled v))
         /\ committed (snd (runInTransaction (asyncBody (run p)) None w)) = s
     | (Thrown e, _) =>
         fst (runInTransaction (asyncBody (run p)) None w)
         = Ok (Prom (Rejected e))
         /\ committed (snd (runInTransaction (asyncBody (run p)) None w))
            = committed w
         /\ forall model m args store,
              fst (query RootClient model m args store
                     (snd (runInTransaction (asyncBody (run p)) None w)))
              = fst (query RootClient model m args store w)
     end
  /\ working (snd (runInTransaction (asyncBody (run p)) None w)) !! opens w
     = None.
Proof.
  split.
  - rewrite runInTransaction_idle. unfold transaction.
    now rewrite await_alsRun.
  - rewrite unit_of_work_effect.
    destruct (effect (TxClient (Itx (opens w))) p (committed w)) as [[v|e] s];
      simpl.
    + split; [split; reflexivity | apply lookup_delete_eq].
    + split; [|apply lookup_delete_eq].
      split; [reflexivity|]. split; [reflexivity|].
      intros model m args store. unfold query; simpl.
      destruct (exec model m args (committed w)); reflexivity.
Qed.

End Properties.

(** ** The library on the reference engine *)

Section OnTheReferenceEngine.

Import Demo.


(** C5, on the sources. For a class named [$transactionRepository] the
    resolved name is [$transaction]; the root client has no delegate of
    that name, only the member [context.ts] calls, which passes the
    truthiness test of the getter: [create] ends in a [TypeError]
    instead of the configuration error. Under a transaction client,
    which has no such member, the same repository does get the
    configuration error. *)
Lemma create_on_utility_member_is_type_error :
  resolveModelName (newRepository "$transactionRepository" None)
  = "$transaction"
  /\ @members demoEngine RootClient "$transaction" = Some UtilityMethod
  /\ @BaseRepository_create demoEngine
       (newRepository "$transactionRepository" None) (DStr "a@x") None
       emptyWorld
     = (Thrown (notAFunction Create), emptyWorld)
  /\ notAFunction Create
     <> unknownModel (newRepository "$transactionRepository" None)
  /\ @BaseRepository_create demoEngine
       (newRepository "$transactionRepository" None) (DStr "a@x")
       (Some (Itx 0)) (begin emptyWorld)
     = (Thrown (unknownModel (newRepository "$transactionRepository" None)),
        begin emptyWorld).
Proof. repeat split. discriminate. Qed.

(** C9, as stated, fails for a method that returns a plain value: the
    decoration succeeds, and the first call reports nothing. *)
Lemma Transactional_accepts_plain_method :
  @Transactional demoEngine (mkDescriptor (Some plainMethod))
  = Ok (mkDescriptor (Some (wrapped plainMethod)))
  /\ plainMethod DNull [DNum 7] None emptyWorld
     = (Ok (Plain (DNum 7)), emptyWorld)
  /\ fst (@wrapped demoEngine plainMethod DNull [DNum 7] None emptyWorld)
     = Ok (Prom (Fulfilled (DNum 7))).
Proof. repeat split. Qed.

(** C3, as stated, fails for a method that throws before it makes a
    promise: under an active transaction the decorated method returns
    a rejected promise, [runInTransaction] throws. So it does for a
    method that returns a plain value: a promise of the value on one
    side, the value itself on the other. The two calls do not hand back
    the same thing. *)
Lemma decorated_rejects_where_runInTransaction_throws :
  @wrapped demoEngine throwingMethod DNull [] (Some (Itx 0)) (begin emptyWorld)
  = (Ok (Prom (Rejected (Error "invalid input"))), begin emptyWorld)
  /\ @runInTransaction demoEngine (throwingMethod DNull []) (Some (Itx 0))
       (begin emptyWorld)
     = (Thrown (Error "invalid input"), begin emptyWorld)
  /\ @wrapped demoEngine plainMethod DNull [DNum 7] (Some (Itx 0))
       (begin emptyWorld)
     = (Ok (Prom (Fulfilled (DNum 7))), begin emptyWorld)
  /\ @runInTransaction demoEngine (plainMethod DNull [DNum 7]) (Some (Itx 0))
       (begin emptyWorld)
     = (Ok (Plain (DNum 7)), begin emptyWorld).
Proof. repeat split. Qed.

(** The scenarios of the specification. *)

Example failed_unit_leaves_nothing :
  @runInTransaction demoEngine (asyncBody (run (createThenFail "a@x"))) None
    emptyWorld
  = (Ok (Prom (Rejected (Error "Simulated Failure"))),
     @mkWorld demoEngine ([] : DStore) ∅ 1).
Proof. vm_compute. reflexivity. Qed.

Example successful_unit_persists_both :
  @runInTransaction demoEngine
    (asyncBody (run (createUserAndPost "a@x" "hello"))) None emptyWorld
  = (Ok (Prom (Fulfilled (DStr "a@x"))),
     @mkWorld demoEngine ([("user", "a@x"); ("post", "hello")] : DStore) ∅ 1).
Proof. vm_compute. reflexivity. Qed.

Example create_outside_a_unit_persists :
  committed (snd (@BaseRepository_create demoEngine userRepo (DStr "b@x") None
                    emptyWorld))
  = [("user", "b@x")].
Proof. reflexivity. Qed.

Example nested_decorated_methods_open_once :
  opens (snd (@wrapped demoEngine
                (fun _ _ => asyncBody (run (nestedTransaction "a@x" "hello")))
                DNull [] None emptyWorld))
  = 1.
Proof. reflexivity. Qed.

End OnTheReferenceEngine.

(** ** The life cycle of the root client *)

Section LifecycleFacts.

Context {R : Runtime}.

(** X9. Initialization succeeds exactly when [$connect] does, and fails
    with the error of [$connect]: the WAL pragma is best effort, its
    failure is only logged. The pragma is attempted only when
    [enableWAL] is [true] and the connection succeeded; otherwise the
    host is left as [$connect] left it. *)
Theorem initializePrisma_follows_connect
    (options : option InitializePrismaOptions) (h : Host) :
  fst (initializePrisma options h)
  = match fst (connect h) with
    | Ok _ => Fulfilled tt
    | Thrown e => Rejected e
    end
  /\ ((forall o, options = Some o -> enableWAL o <> Some true) ->
      snd (initializePrisma options h) = snd (connect h))
  /\ ((exists e, fst (connect h) = Thrown e) ->
      snd (initializePrisma options h) = snd (connect h))
  /\ (forall o e h1 h2,
        options = Some o -> enableWAL o = Some true ->
        connect h = (Ok tt, h1) ->
        queryRawUnsafe "PRAGMA journal_mode = WAL;" h1 = (Thrown e, h2) ->
        initializePrisma options h
        = (Fulfilled tt, warn "Failed to enable WAL mode:" e h2)).
Proof.
  unfold initializePrisma.
  split; [|split; [|split]].
  - destruct (connect h) as [[u|e] h1]; simpl; [|reflexivity].
    destruct options as [[[[|]|]]|]; simpl; try reflexivity.
    destruct (queryRawUnsafe _ h1) as [[x|e] h2]; reflexivity.
  - intros Hoff.
    destruct (connect h) as [[u|e] h1]; simpl; [|reflexivity].
    destruct options as [[[[|]|]]|]; simpl; try reflexivity.
    exfalso. now apply (Hoff _ eq_refl).
  - intros [e He].
    destruct (connect h) as [[u|e'] h1]; simpl in *; [discriminate|reflexivity].
  - intros o e h1 h2 -> Hon Hconnect Hpragma.
    rewrite Hconnect, Hon. simpl. now rewrite Hpragma.
Qed.

End LifecycleFacts.

(** ** Further properties of the library, for every engine *)

Section Coverage.

Context {E : Engine}.

Notation "'do' x <- m ; k" := (bind m (fun x => k))
  (at level 10, x name, m at level 100, k at level 200).

(** *** The proxy *)

Lemma proxyGet_eq (prop : string) (store : option TransactionClient)
    (w : World) :
  proxyGet prop store w
  = (Ok (match members (resolved store) prop with
         | Some k => Some (mkDelegateRef (resolved store) prop k)
         | None => None
         end), w).
Proof. unfold proxyGet, bind. now rewrite getPrismaClient_eq. Qed.

Lemma proxyCall_eq (prop : string) (m : Method) (args : Val)
    (store : option TransactionClient) (w : World) :
  proxyCall prop m args store w
  = match members (resolved store) prop with
    | Some ModelDelegate => query (resolved store) prop m args store w
    | Some UtilityMethod => (Thrown (proxyNotAFunction prop m), w)
    | None => (Thrown (cannotRead m), w)
    end.
Proof.
  unfold proxyCall, bind. rewrite proxyGet_eq.
  destruct (members _ _) as [[|]|]; reflexivity.
Qed.

(** X1. A call through the proxy, [prisma[prop].method(args)], is the
    call a repository configured with the explicit name [prop] makes,
    on the same client, whenever that client holds a delegate under
    [prop]; where the client holds nothing the proxy call is a
    [TypeError] on [undefined] (the repository would throw its
    configuration error), and neither touches the engine. *)
Theorem proxy_agrees_with_repository (prop cls : string) (m : Method)
    (args : Val) (store : option TransactionClient) (w : World) :
  prop <> EmptyString ->
  proxyCall prop m args store w
  = match members (resolved store) prop with
    | Some ModelDelegate =>
        BaseRepository_method m (newRepository cls (Some prop)) args store w
    | Some UtilityMethod => (Thrown (proxyNotAFunction prop m), w)
    | None => (Thrown (cannotRead m), w)
    end.
Proof.
  intros Hprop. rewrite proxyCall_eq, BaseRepository_method_eq.
  assert (Hname : resolveModelName (newRepository cls (Some prop)) = prop).
  { unfold resolveModelName; simpl. now rewrite truthy_nonempty. }
  rewrite Hname. destruct (members _ _) as [[|]|]; reflexivity.
Qed.

Lemma failing_unit_rolls_back (body : Comp Val) (w : World) (e : JsError)
    (w' : World) :
  body (Some (Itx (opens w))) (begin w) = (Thrown e, w') ->
  runInTransaction (asyncBody body) None w
  = (Ok (Prom (Rejected e)), rollback (opens w) w').
Proof.
  intros Hbody. rewrite runInTransaction_idle. unfold transaction.
  rewrite await_alsRun, await_asyncBody, Hbody. reflexivity.
Qed.

(** X2. The proxy chooses the client when the property is read, not
    when the method is called. A delegate read from [prisma] outside a
    unit of work stays with the root client: used inside a unit of work
    that then fails, its write goes to the committed store and is not
    rolled back; the same call made through [prisma] inside the unit
    leaves the committed store as it was. *)
Theorem proxy_delegate_stays_with_its_client (prop : string) (m : Method)
    (args : Val) (e : JsError) (w : World) :
  members RootClient prop = Some ModelDelegate ->
  let d := mkDelegateRef RootClient prop ModelDelegate in
  proxyGet prop None w = (Ok (Some d), w)
  /\ committed (snd (runInTransaction
                       (asyncBody (do x <- invoke d m args ;
                                   do _ <- await x ; throw e)) None w))
     = snd (exec prop m args (committed w))
  /\ committed (snd (runInTransaction
                       (asyncBody (do x <- proxyCall prop m args ;
                                   do _ <- await x ; throw e)) None w))
     = committed w.
Proof.
  intros Hmember. cbv zeta. split; [|split].
  - rewrite proxyGet_eq. simpl. now rewrite Hmember.
  - assert (Hbody : exists e',
              (do x <- invoke (mkDelegateRef RootClient prop ModelDelegate)
                         m args ;
               do _ <- await x ; @throw E Val e) (Some (Itx (opens w))) (begin w)
              = (Thrown e',
                 mkWorld (snd (exec prop m args (committed w)))
                   (working (begin w)) (opens (begin w)))).
    { unfold bind, invoke, query; simpl.
      destruct (exec prop m args (committed w)) as [[v|e'] s]; simpl;
        eexists; reflexivity. }
    destruct Hbody as [e' Hbody].
    rewrite (failing_unit_rolls_back _ _ _ _ Hbody). reflexivity.
  - assert (Hbody : exists e' w',
              (do x <- proxyCall prop m args ;
               do _ <- await x ; @throw E Val e) (Some (Itx (opens w))) (begin w)
              = (Thrown e', w') /\ committed w' = committed w).
    { unfold bind. rewrite proxyCall_eq.
      change (resolved (Some (Itx (opens w)))) with (TxClient (Itx (opens w))).
      destruct (members (TxClient (Itx (opens w))) prop) as [[|]|].
      - rewrite (query_in_transaction (opens w) _ _ _ _ (begin w) (committed w))
          by (unfold begin; simpl; apply lookup_insert_eq).
        destruct (exec prop m args (committed w)) as [[v|e'] s]; simpl;
          eexists; eexists; split; reflexivity.
      - eexists; eexists; split; reflexivity.
      - eexists; eexists; split; reflexivity. }
    destruct Hbody as (e' & w' & Hbody & Hsame).
    rewrite (failing_unit_rolls_back _ _ _ _ Hbody). exact Hsame.
Qed.

(** *** How the entry points compose *)

Lemma await_wrapped_active (originalMethod : JsMethod) (this : Val)
    (args : list Val) (tx : TransactionClient) (w : World) :
  (do x <- wrapped originalMethod this args ; await x) (Some tx) w
  = (do x <- originalMethod this args ; await x) (Some tx) w.
Proof.
  change ((do x <- async (originalMethod this args) ; await x) (Some tx) w
          = (do x <- originalMethod this args ; await x) (Some tx) w).
  apply await_async.
Qed.

(** X3. The entry points absorb one another, for every callback and
    method, inside a transaction and outside: a unit of work around a
    unit of work, a decorator on a decorated method, a unit of work
    around a decorated method and a decorator on a method that opens a
    unit of work each behave as the single entry point, state of the
    engine included. *)
Theorem entry_points_absorb (callback : Comp (JsValue Val))
    (originalMethod : JsMethod) (this : Val) (args : list Val)
    (store : option TransactionClient) (w : World) :
  runInTransaction (runInTransaction callback) store w
  = runInTransaction callback store w
  /\ wrapped (wrapped originalMethod) this args store w
     = wrapped originalMethod this args store w
  /\ runInTransaction (wrapped originalMethod this args) store w
     = wrapped originalMethod this args store w
  /\ wrapped (fun t a => runInTransaction (originalMethod t a)) this args
       store w
     = wrapped originalMethod this args store w.
Proof.
  destruct store as [tx|].
  - split; [reflexivity|]. split; [|split; reflexivity].
    rewrite (wrapped_active (wrapped originalMethod)).
    rewrite (wrapped_active originalMethod).
    unfold async. apply asyncBody_ext. apply await_wrapped_active.
  - split; [|split; [|split]].
    + rewrite !runInTransaction_idle. apply transaction_ext.
      rewrite !await_alsRun. reflexivity.
    + rewrite !wrapped_idle. apply transaction_ext.
      rewrite !await_alsRun. apply await_wrapped_active.
    + rewrite runInTransaction_idle, wrapped_idle. apply transaction_ext.
      rewrite !await_alsRun. apply await_wrapped_active.
    + rewrite !wrapped_idle. apply transaction_ext.
      rewrite !await_alsRun. reflexivity.
Qed.

(** X4. Under an installed transaction client a nested unit of work, in
    either form, is its body run in place: it has no commit and no
    rollback of its own, and a failure of the body is an ordinary error
    at the place of the call. *)
Theorem nested_unit_is_its_body (body : Op) (this : Val) (args : list Val)
    (method : Val -> list Val -> Op) (k : Val -> Op)
    (tx : TransactionClient) (w : World) :
  run (RunInTx body k) (Some tx) w
  = (do v <- run body ; run (k v)) (Some tx) w
  /\ run (CallTransactional this args method k) (Some tx) w
     = (do v <- run (method this args) ; run (k v)) (Some tx) w.
Proof.
  split; simpl; unfold bind.
  - rewrite runInTransaction_active. unfold asyncBody.
    destruct (run body (Some tx) w) as [[v|e] w']; reflexivity.
  - rewrite wrapped_active. unfold async, asyncBody, bind.
    destruct (run (method this args) (Some tx) w) as [[v|e] w']; reflexivity.
Qed.

(** X5. There is no partial rollback: when a nested unit of work fails
    and the enclosing operation catches the error and completes, what
    the nested unit wrote before it failed is committed with the
    enclosing unit. *)
Theorem caught_inner_failure_is_committed (body : Op) (v : Val) (w : World)
    (e : JsError) (s : Store) :
  effect (TxClient (Itx (opens w))) body (committed w) = (Thrown e, s) ->
  runInTransaction
    (asyncBody (run (Try (RunInTx body Done) (fun _ => Done v) Done))) None w
  = (Ok (Prom (Fulfilled v)),
     mkWorld s (delete (opens w) (working w)) (S (opens w))).
Proof.
  intros Hbody. rewrite unit_of_work_effect. simpl. rewrite Hbody. reflexivity.
Qed.

(** What a unit of work entered from an idle context leaves committed. *)
Lemma unit_of_work_committed (p : Op) (w : World) :
  committed (snd (runInTransaction (asyncBody (run p)) None w))
  = match effect (TxClient (Itx (opens w))) p (committed w) with
    | (Ok _, s) => s
    | (Thrown _, _) => committed w
    end
  /\ opens (snd (runInTransaction (asyncBody (run p)) None w)) = S (opens w)
  /\ fst (runInTransaction (asyncBody (run p)) None w)
     = Ok (Prom (settle (fst (effect (TxClient (Itx (opens w))) p
                                (committed w))))).
Proof.
  rewrite unit_of_work_effect.
  destruct (effect (TxClient (Itx (opens w))) p (committed w)) as [[v|e] s];
    repeat split.
Qed.

(** X6. Units of work entered one after the other compose: the second
    opens a transaction of its own, starts from the store the first
    committed (the store from before when the first failed), and the
    store after both is what its own queries make of that. *)
Theorem units_in_sequence (p1 p2 : Op) (w : World) :
  let after1 :=
    match effect (TxClient (Itx (opens w))) p1 (committed w) with
    | (Ok _, s) => s
    | (Thrown _, _) => committed w
    end in
  let w1 := snd (runInTransaction (asyncBody (run p1)) None w) in
  let r2 := runInTransaction (asyncBody (run p2)) None w1 in
  fst r2
  = Ok (Prom (settle (fst (effect (TxClient (Itx (S (opens w)))) p2 after1))))
  /\ committed (snd r2)
     = match effect (TxClient (Itx (S (opens w)))) p2 after1 with
       | (Ok _, s) => s
       | (Thrown _, _) => after1
       end
  /\ opens (snd r2) = S (S (opens w)).
Proof.
  cbv zeta.
  destruct (unit_of_work_committed p1 w) as (Hc1 & Ho1 & _).
  destruct (unit_of_work_committed p2
              (snd (runInTransaction (asyncBody (run p1)) None w)))
    as (Hc2 & Ho2 & Hr2).
  rewrite Ho1, Hc1 in *. repeat split; assumption.
Qed.

(** X8. A decorated method called from an idle context is atomic: when
    its body fails the promise rejects with that error and the
    committed store is the one from before; when it completes the
    promise is fulfilled with its value and the committed store is what
    the queries of the body produce in order. One transaction is opened
    and closed. *)
Theorem decorated_method_is_atomic (method : Val -> list Val -> Op)
    (this : Val) (args : list Val) (w : World) :
  wrapped (fun t a => asyncBody (run (method t a))) this args None w
  = match effect (TxClient (Itx (opens w))) (method this args) (committed w)
    with
    | (Ok v, s) =>
        (Ok (Prom (Fulfilled v)),
         mkWorld s (delete (opens w) (working w)) (S (opens w)))
    | (Thrown e, _) =>
        (Ok (Prom (Rejected e)),
         mkWorld (committed w) (delete (opens w) (working w)) (S (opens w)))
    end.
Proof.
  rewrite wrapped_idle.
  change (runInTransaction (asyncBody (run (method this args))) None w = 
          match effect (TxClient (Itx (opens w))) (method this args)
                  (committed w) with
          | (Ok v, s) =>
              (Ok (Prom (Fulfilled v)),
               mkWorld s (delete (opens w) (working w)) (S (opens w)))
          | (Thrown e, _) =>
              (Ok (Prom (Rejected e)),
               mkWorld (committed w) (delete (opens w) (working w))
                 (S (opens w)))
          end).
  apply unit_of_work_effect.
Qed.

(** *** Uncommitted work stays out of the committed store *)

Lemma shielded_ret {A : Type} (a : A) : shielded (ret a).
Proof. intros tx w. reflexivity. Qed.

Lemma shielded_throw {A : Type} (e : JsError) : shielded (@throw E A e).
Proof. intros tx w. reflexivity. Qed.

Lemma shielded_bind {A B : Type} (m : Comp A) (k : A -> Comp B) :
  shielded m -> (forall a, shielded (k a)) -> shielded (do x <- m ; k x).
Proof.
  intros Hm Hk tx w. unfold bind. specialize (Hm tx w).
  destruct (m (Some tx) w) as [[a|e] w']; simpl in *.
  - now rewrite Hk.
  - exact Hm.
Qed.

Lemma shielded_await (x : JsValue Val) : shielded (await x).
Proof. destruct x as [v|[v|e]]; intros tx w; reflexivity. Qed.

Lemma shielded_asyncBody (body : Comp Val) :
  shielded body -> shielded (asyncBody body).
Proof. intros Hbody tx w. rewrite asyncBody_settle. apply Hbody. Qed.

Lemma shielded_tryCatch {A : Type} (body : Comp A)
    (handler : JsError -> Comp A) :
  shielded body -> (forall e, shielded (handler e)) ->
  shielded (tryCatch body handler).
Proof.
  intros Hbody Hhandler tx w. unfold tryCatch. specialize (Hbody tx w).
  destruct (body (Some tx) w) as [[a|e] w']; simpl in *.
  - exact Hbody.
  - now rewrite Hhandler.
Qed.

Lemma shielded_method (m : Method) (r : Repository) (args : Val) :
  shielded (BaseRepository_method m r args).
Proof.
  intros [id] w. rewrite BaseRepository_method_eq.
  destruct (members _ _) as [[|]|]; try reflexivity.
  unfold query; simpl.
  destruct (working w !! id) as [s|]; [|reflexivity].
  destruct (exec _ m args s); reflexivity.
Qed.

Lemma shielded_proxyCall (prop : string) (m : Method) (args : Val) :
  shielded (proxyCall prop m args).
Proof.
  intros [id] w. rewrite proxyCall_eq.
  destruct (members _ _) as [[|]|]; try reflexivity.
  unfold query; simpl.
  destruct (working w !! id) as [s|]; [|reflexivity].
  destruct (exec _ m args s); reflexivity.
Qed.

Lemma shielded_runInTransaction (callback : Comp (JsValue Val)) :
  shielded callback -> shielded (runInTransaction callback).
Proof. intros Hcb tx w. rewrite runInTransaction_active. apply Hcb. Qed.

Lemma shielded_wrapped (originalMethod : JsMethod) (this : Val)
    (args : list Val) :
  shielded (originalMethod this args) ->
  shielded (wrapped originalMethod this args).
Proof.
  intros Hm tx w. rewrite wrapped_active. unfold async.
  apply shielded_asyncBody. apply shielded_bind; [exact Hm|].
  apply shielded_await.
Qed.

Create HintDb shielded.

#[local] Hint Resolve shielded_ret shielded_throw shielded_await
  shielded_method shielded_asyncBody shielded_runInTransaction
  shielded_tryCatch shielded_bind : shielded.

Lemma run_shielded (p : Op) : shielded (run p).
Proof.
  induction p as [v | e | r m args k IHk | body IHbody k IHk
                 | this args method IHmethod k IHk
                 | body IHbody handler IHhandler k IHk]; simpl;
    auto 6 with shielded.
  apply shielded_bind; [|auto with shielded].
  apply (shielded_wrapped (fun t a => asyncBody (run (method t a)))).
  auto with shielded.
Qed.

(** X7. While a transaction client is installed, nothing an operation
    does through repositories, nested units of work included, and no
    call through the proxy reaches the committed store: a query on the
    root client answers afterwards what it answered before. *)
Theorem installed_client_shields_committed_store (p : Op) (prop : string)
    (m : Method) (args : Val) (tx : TransactionClient) (w : World) :
  committed (snd (run p (Some tx) w)) = committed w
  /\ committed (snd (proxyCall prop m args (Some tx) w)) = committed w
  /\ forall model m' args' store,
       fst (query RootClient model m' args' store (snd (run p (Some tx) w)))
       = fst (query RootClient model m' args' store w).
Proof.
  split; [apply run_shielded|]. split; [apply shielded_proxyCall|].
  intros model m' args' store. unfold query.
  rewrite (run_shielded p tx w).
  destruct (exec model m' args' (committed w)); reflexivity.
Qed.

End Coverage.

(** ** The further properties on the reference engine *)

Section CoverageOnTheReferenceEngine.

Import Demo.

(** X1 at the delegate [user] of the root client. *)
Lemma proxy_agrees_with_repository_witness :
  @proxyCall demoEngine "user" Create (DStr "a@x") None emptyWorld
  = @BaseRepository_method demoEngine Create
      (newRepository "AccountStore" (Some "user")) (DStr "a@x") None emptyWorld.
Proof.
  apply (@proxy_agrees_with_repository demoEngine "user" "AccountStore" Create
           (DStr "a@x") None emptyWorld).
  discriminate.
Defined.

(** X2 at [prisma.user.create]: read outside, the write survives the
    failed unit; read inside, it does not. *)
Lemma proxy_delegate_stays_with_its_client_witness :
  committed (snd (@runInTransaction demoEngine
                    (asyncBody
                       (bind (@invoke demoEngine
                                (mkDelegateRef RootClient "user" ModelDelegate)
                                Create (DStr "a@x"))
                          (fun x => bind (@await demoEngine x)
                             (fun _ => throw (Error "late failure")))))
                    None emptyWorld))
  = [("user", "a@x")]
  /\ committed (snd (@runInTransaction demoEngine
                       (asyncBody
                          (bind (@proxyCall demoEngine "user" Create
                                   (DStr "a@x"))
                             (fun x => bind (@await demoEngine x)
                                (fun _ => throw (Error "late failure")))))
                       None emptyWorld))
     = [].
Proof.
  destruct (@proxy_delegate_stays_with_its_client demoEngine "user" Create
              (DStr "a@x") (Error "late failure") emptyWorld eq_refl)
    as (_ & Hkept & Hundone).
  split; [exact Hkept | exact Hundone].
Defined.

(** X5 at [createThenFail] caught by the enclosing operation: the user
    it created is committed. *)
Lemma caught_inner_failure_is_committed_witness :
  @runInTransaction demoEngine
    (asyncBody
       (run (@Try demoEngine
               (@RunInTx demoEngine (createThenFail "a@x") (@Done demoEngine))
               (fun _ => @Done demoEngine DNull) (@Done demoEngine))))
    None emptyWorld
  = (Ok (Prom (Fulfilled DNull)),
     @mkWorld demoEngine ([("user", "a@x")] : DStore) (delete 0 ∅) 1).
Proof.
  apply (@caught_inner_failure_is_committed demoEngine (createThenFail "a@x")
           DNull emptyWorld (Error "Simulated Failure")
           ([("user", "a@x")] : DStore)).
  reflexivity.
Defined.

End CoverageOnTheReferenceEngine.
